(** * Lighthouse audit tool ([src/tools/lighthouse.ts]): model and properties

    The tool is one schema ([lighthouseAuditSchema]) and one handler
    ([handle]).  The handler validates its parameters, derives the
    remote-debugging port from the browser launch arguments, prepares the
    report location, calls the audit engine once and assembles the response.

    The model keeps the shape of the source:
    - JavaScript values are the inductive [value]; objects used as maps are
      [gmap string _];
    - the zod combinators the schema is built from are parsers returning
      [ParseReturn];
    - the handler is a program tree [Prog] over the calls it makes to its
      collaborators (tab lookup, working directory, mkdir, clock, audit
      engine, console); [run] executes a tree against a [World] that answers
      those calls, and records the calls made in a trace. *)

From Stdlib Require Import ZArith PrimFloat FloatOps SpecFloat Ascii String.
From stdpp Require Import gmap strings list fin_maps pretty.

Local Open Scope string_scope.
Local Open Scope list_scope.
Local Open Scope Z_scope.

#[local] Set Warnings "-register-all".

(** ** JavaScript values *)

(** A JavaScript number is an IEEE-754 double. *)
Abbreviation number := float.

Inductive value : Type :=
| VUndefined
| VNull
| VBool (b : bool)
| VNum (x : number)
| VStr (s : string)
| VArr (l : list value)
| VObj (m : gmap string value).

(** [obj[key]]: a missing property reads as [undefined]. *)
Definition get (m : gmap string value) (key : string) : value :=
  default VUndefined (m !! key).

(** ** zod *)

Module Zod.

Inductive ZodIssueCode := invalid_type | invalid_enum_value.

Inductive PathSeg := Key (k : string) | Index (i : nat).

Record ZodIssue := { code : ZodIssueCode; path : list PathSeg }.

Inductive ParseReturn (A : Type) : Type :=
| OK (a : A)
| INVALID (issues : list ZodIssue).
Arguments OK {A} a.
Arguments INVALID {A} issues.

(** A schema parses the value found at a path. *)
Definition ZodType (A : Type) : Type := list PathSeg → value → ParseReturn A.

Definition isValid {A} (r : ParseReturn A) : bool :=
  match r with OK _ => true | INVALID _ => false end.

Definition issues_of {A} (r : ParseReturn A) : list ZodIssue :=
  match r with OK _ => [] | INVALID i => i end.

Definition value_of {A} (r : ParseReturn A) : option A :=
  match r with OK a => Some a | INVALID _ => None end.

Definition addIssue {A} (c : ZodIssueCode) (p : list PathSeg) : ParseReturn A :=
  INVALID [ {| code := c; path := p |} ].

Definition map_ok {A B} (f : A → B) (r : ParseReturn A) : ParseReturn B :=
  match r with OK a => OK (f a) | INVALID i => INVALID i end.

(** Two parts of one composite value: the issues of both are kept. *)
Definition merge {A B} (rf : ParseReturn (A → B)) (ra : ParseReturn A)
  : ParseReturn B :=
  match rf, ra with
  | OK f, OK a => OK (f a)
  | _, _ => INVALID (issues_of rf ++ issues_of ra)
  end.

(** [z.string()] *)
Definition string_ : ZodType string := λ p v,
  match v with
  | VStr s => OK s
  | _ => addIssue invalid_type p
  end.

(** [z.number()]: a value of type number that is not NaN. *)
Definition number_ : ZodType number := λ p v,
  match v with
  | VNum x => if is_nan x then addIssue invalid_type p else OK x
  | _ => addIssue invalid_type p
  end.

(** [z.enum([...])] *)
Definition enum (values : list string) : ZodType string := λ p v,
  match v with
  | VStr s => if bool_decide (s ∈ values) then OK s
              else addIssue invalid_enum_value p
  | _ => addIssue invalid_type p
  end.

(** The elements of an array, each parsed at its index. *)
Fixpoint parse_items {A} (T : ZodType A) (p : list PathSeg) (i : nat)
    (l : list value) : ParseReturn (list A) :=
  match l with
  | [] => OK []
  | v :: l' => merge (map_ok cons (T (p ++ [Index i]) v))
                     (parse_items T p (S i) l')
  end.

(** [z.array(T)] *)
Definition array {A} (T : ZodType A) : ZodType (list A) := λ p v,
  match v with
  | VArr l => parse_items T p 0%nat l
  | _ => addIssue invalid_type p
  end.

(** [T.default(d)]: [undefined] is replaced by [d] before [T] parses. *)
Definition default_ {A} (T : ZodType A) (d : value) : ZodType A := λ p v,
  match v with
  | VUndefined => T p d
  | _ => T p v
  end.

(** [T.optional()] *)
Definition optional {A} (T : ZodType A) : ZodType (option A) := λ p v,
  match v with
  | VUndefined => OK None
  | _ => map_ok Some (T p v)
  end.

(** [z.record(z.string(), V)]: an object, every property value parsed by
    [V]; the key schema [z.string()] accepts every property name. *)
Definition record {A} (V : ZodType A) : ZodType (gmap string A) := λ p v,
  match v with
  | VObj m =>
      let rs : gmap string (ParseReturn A) :=
        map_imap (λ k x, Some (V (p ++ [Key k]) x)) m in
      if bool_decide (map_Forall (λ _ r, isValid r = true) rs)
      then OK (omap value_of rs)
      else INVALID (concat ((issues_of ∘ snd) <$> map_to_list rs))
  | _ => addIssue invalid_type p
  end.

(** [T.describe(text)] only attaches documentation. *)
Definition describe {A} (T : ZodType A) (text : string) : ZodType A := T.

End Zod.

Import Zod.

(** ** 1 schema *)

Record Opts := {
  categories : list string;
  formFactor : string;
  output : string;
  thresholds : option (gmap string number);
}.

Definition category_names : list string :=
  ["performance"; "accessibility"; "seo"; "best-practices"; "pwa"].
Definition formFactor_names : list string := ["desktop"; "mobile"].
Definition output_names : list string := ["html"; "json"].

Definition categories_schema : ZodType (list string) :=
  default_ (array (enum category_names)) (VArr [VStr "accessibility"]).

Definition formFactor_schema : ZodType string :=
  default_ (enum formFactor_names) (VStr "desktop").

Definition output_schema : ZodType string :=
  default_ (enum output_names) (VStr "html").

Definition thresholds_schema : ZodType (option (gmap string number)) :=
  describe (optional (record number_))
    "Key‑value map of category → minimum score (0‑100). Build fails if any category falls below its threshold.".

(** [z.object({...})]: the input must be an object; each declared key is
    read from it and parsed, undeclared keys are dropped. *)
Definition lighthouseAuditSchema : ZodType Opts := λ p v,
  match v with
  | VObj m =>
      merge (merge (merge (map_ok Build_Opts
        (categories_schema (p ++ [Key "categories"]) (get m "categories")))
        (formFactor_schema (p ++ [Key "formFactor"]) (get m "formFactor")))
        (output_schema (p ++ [Key "output"]) (get m "output")))
        (thresholds_schema (p ++ [Key "thresholds"]) (get m "thresholds"))
  | _ => addIssue invalid_type p
  end.

(** [schema.parse(params)] *)
Definition parse {A} (T : ZodType A) (params : value) : ParseReturn A := T [] params.

(** ** JavaScript built-ins used by the handler *)

(** [s.startsWith(prefix)] *)
Fixpoint startsWith (s prefix : string) {struct prefix} : bool :=
  match prefix with
  | EmptyString => true
  | String a prefix' =>
      match s with
      | String b s' => Ascii.eqb a b && startsWith s' prefix'
      | EmptyString => false
      end
  end.

(** [s.split(sep)] for a one-character separator. *)
Fixpoint split (sep : ascii) (s : string) : list string :=
  match s with
  | EmptyString => [""]
  | String c s' =>
      if Ascii.eqb c sep then "" :: split sep s'
      else match split sep s' with
           | h :: t => String c h :: t
           | [] => [String c ""]
           end
  end.

(** White space skipped by [parseInt] (the ASCII part of it). *)
Definition is_white_space (c : ascii) : bool :=
  bool_decide (nat_of_ascii c ∈ [9; 10; 11; 12; 13; 32]%nat).

Fixpoint trimStart (s : string) : string :=
  match s with
  | String c s' => if is_white_space c then trimStart s' else s
  | EmptyString => s
  end.

(** The value of a character as a digit: 0-9, then a-z or A-Z for 10-35. *)
Definition digit_value (c : ascii) : option Z :=
  let n := Z.of_nat (nat_of_ascii c) in
  if (48 <=? n) && (n <=? 57) then Some (n - 48)
  else if (97 <=? n) && (n <=? 122) then Some (n - 87)
  else if (65 <=? n) && (n <=? 90) then Some (n - 55)
  else None.

(** The longest prefix of radix-[R] digits. *)
Fixpoint digits (R : Z) (s : string) : list Z :=
  match s with
  | String c s' =>
      match digit_value c with
      | Some d => if d <? R then d :: digits R s' else []
      | None => []
      end
  | EmptyString => []
  end.

Definition mathInt (R : Z) (ds : list Z) : Z :=
  foldl (λ acc d, acc * R + d) 0 ds.

(** The double nearest to an integer. *)
Definition Number_of_Z (z : Z) : number :=
  SF2Prim (binary_normalize prec emax z 0 false).

(** [parseInt(string, radix)] *)
Definition parseInt (input : string) (radix : Z) : number :=
  let inputString := trimStart input in
  let '(sign, str) :=
    match inputString with
    | String "-" r => (-1, r)
    | String "+" r => (1, r)
    | _ => (1, inputString)
    end in
  if negb (radix =? 0) && ((radix <? 2) || (36 <? radix)) then nan
  else
    let stripPrefix := (radix =? 0) || (radix =? 16) in
    let R0 := if radix =? 0 then 10 else radix in
    let '(R, str) :=
      if stripPrefix && (startsWith str "0x" || startsWith str "0X")
      then (16, String.substring 2 (String.length str - 2)%nat str)
      else (R0, str) in
    match digits R str with
    | [] => nan
    | ds =>
        let n := mathInt R ds in
        if n =? 0 then (if sign =? -1 then PrimFloat.neg_zero else PrimFloat.zero)
        else Number_of_Z (sign * n)
    end.

(** [String(n)] for an integer [n], as in a template literal. *)
Definition String_of_Z (n : Z) : string := pretty n.

(** ** [path.join] on POSIX platforms *)

Module posix.

(** The segments of a path, [.] and empty segments dropped and [..]
    resolved against the segments kept so far ([res], last one first). *)
Fixpoint normalizeSegments (allowAboveRoot : bool) (res segs : list string)
  : list string :=
  match segs with
  | [] => reverse res
  | seg :: rest =>
      if bool_decide (seg = "" ∨ seg = ".")
      then normalizeSegments allowAboveRoot res rest
      else if bool_decide (seg = "..")
      then match res with
           | top :: res' =>
               if bool_decide (top = "..")
               then normalizeSegments allowAboveRoot (".." :: res) rest
               else normalizeSegments allowAboveRoot res' rest
           | [] =>
               normalizeSegments allowAboveRoot
                 (if allowAboveRoot then [".."] else []) rest
           end
      else normalizeSegments allowAboveRoot (seg :: res) rest
  end.

Fixpoint endsWithSep (s : string) : bool :=
  match s with
  | EmptyString => false
  | String c EmptyString => Ascii.eqb c "/"
  | String _ s' => endsWithSep s'
  end.

Definition normalize (path : string) : string :=
  if bool_decide (path = "") then "."
  else
    let isAbsolute := startsWith path "/" in
    let trailingSeparator := endsWithSep path in
    let p := String.concat "/"
               (normalizeSegments (negb isAbsolute) [] (split "/" path)) in
    if bool_decide (p = "")
    then (if isAbsolute then "/" else if trailingSeparator then "./" else ".")
    else
      let p := if trailingSeparator then p +:+ "/" else p in
      if isAbsolute then "/" +:+ p else p.

Definition join (paths : list string) : string :=
  match filter (λ s, s ≠ "") paths with
  | [] => "."
  | l => normalize (String.concat "/" l)
  end.

End posix.

(** ** Collaborators of the handler *)

(** The page of the current tab: a handle owned by the host. *)
Inductive CorePage := PageHandle (id : nat).

Record Tab := { page : CorePage }.

Record LaunchOptions := { args : option (list string) }.
Record ContextOptions := { launchOptions : option LaunchOptions }.
Record Context := { options : ContextOptions }.

(** The argument of [playAudit]. *)
Record Formats := { html : bool; json : bool }.
Record Reports := { formats : Formats; name : string; directory : string }.
Record EngineOpts := { logLevel : string }.
Record AuditConfig := {
  audit_page : CorePage;
  port : number;
  audit_thresholds : option (gmap string number);
  opts : EngineOpts;
  reports : Reports;
}.

(** The result of [playAudit]. *)
Record CategoryResult := { score : value }.
Record LHR := { lhr_categories : gmap string CategoryResult }.
Record RunnerResult := { lhr : LHR }.

(** What the handler returns. *)
Record FileDescriptor := { file_path : string; mediaType : string }.
Record ResponseData := { scores : gmap string value }.
Record Response := {
  code : list string;
  files : list FileDescriptor;
  captureSnapshot : bool;
  waitForNetwork : bool;
  data : ResponseData;
}.

(** What can be thrown: the error of [schema.parse], an [Error] with a
    message, or whatever a collaborator throws. *)
Inductive Exception :=
| ZodError (issues : list ZodIssue)
| Error (message : string)
| Foreign (thrown : value).

Inductive Completion (A : Type) : Type :=
| Return (a : A)
| Threw (e : Exception).
Arguments Return {A} a.
Arguments Threw {A} e.

(** ** Programs over the collaborators *)

(** The calls the handler makes, indexed by the type of what they return. *)
Inductive Call : Type → Type :=
| ensureTab : Call Tab
| process_cwd : Call string
| fs_mkdir (dir : string) (recursive : bool) : Call unit
| Date_now : Call Z
| playAudit (config : AuditConfig) : Call RunnerResult
| console_log (message : string) (l : LHR) : Call unit.

Inductive Prog (A : Type) : Type :=
| Ret (a : A)
| Throw (e : Exception)
| Do {X : Type} (c : Call X) (k : X → Prog A).
Arguments Ret {A} a.
Arguments Throw {A} e.
Arguments Do {A X} c k.

Notation "x ← 'await' c ; k" := (Do c (λ x, k))
  (at level 20, c at level 100, k at level 200, only parsing).

(** The calls as they appear in a trace. *)
Inductive Event :=
| EnsureTab
| Cwd
| Mkdir (dir : string) (recursive : bool)
| Now
| PlayAudit (config : AuditConfig)
| ConsoleLog (message : string) (l : LHR).

Definition event_of {X} (c : Call X) : Event :=
  match c with
  | ensureTab => EnsureTab
  | process_cwd => Cwd
  | fs_mkdir d r => Mkdir d r
  | Date_now => Now
  | playAudit cfg => PlayAudit cfg
  | console_log msg l => ConsoleLog msg l
  end.

(** One invocation's environment: how each collaborator answers. *)
Record World := {
  w_ensureTab : Completion Tab;
  w_cwd : Completion string;
  w_mkdir : string → bool → Completion unit;
  w_now : Z;
  w_playAudit : AuditConfig → Completion RunnerResult;
}.

Definition answer (w : World) {X} (c : Call X) : Completion X :=
  match c in Call X return Completion X with
  | ensureTab => w_ensureTab w
  | process_cwd => w_cwd w
  | fs_mkdir d r => w_mkdir w d r
  | Date_now => Return (w_now w)
  | playAudit cfg => w_playAudit w cfg
  | console_log _ _ => Return tt
  end.

(** Running a program: every call is recorded; a call that throws ends the
    program with what it threw. *)
Fixpoint run {A} (w : World) (p : Prog A) : list Event * Completion A :=
  match p with
  | Ret a => ([], Return a)
  | Throw e => ([], Threw e)
  | Do c k =>
      match answer w c with
      | Threw e => ([event_of c], Threw e)
      | Return x => let '(tr, r) := run w (k x) in (event_of c :: tr, r)
      end
  end.

(** The configurations the audit engine was called with. *)
Definition engine_calls (tr : list Event) : list AuditConfig :=
  omap (λ ev, match ev with PlayAudit cfg => Some cfg | _ => None end) tr.

(** [Object.entries(o)] and [Object.fromEntries(l)] (a later entry for a key
    replaces an earlier one). *)
Definition Object_entries {A} (o : gmap string A) : list (string * A) :=
  map_to_list o.
Definition Object_fromEntries {A} (l : list (string * A)) : gmap string A :=
  foldl (λ o kv, <[kv.1 := kv.2]> o) ∅ l.

(** ** 2 handler *)

Definition remote_debugging_port_flag : string := "--remote-debugging-port=".

Definition not_launched_with_port : string :=
  "The Playwright browser was not launched with --remote-debugging-port=<n>. " +:+
  "Restart the MCP server with that flag so Lighthouse can attach.".

(** [context.options.launchOptions?.args?.find(...)?.split('=')[1]] *)
Definition derive_port (context : Context) : option string :=
  lo ← launchOptions (options context);
  a ← args lo;
  arg ← List.find (λ arg, startsWith arg remote_debugging_port_flag) a;
  split "=" arg !! 1%nat.

Section Handler.

(** [path.join] of the platform the server runs on. *)
Variable path_join : list string → string.

(** [path.join(process.cwd(), "lighthouse-reports")] *)
Definition reportDir_of (cwd : string) : string :=
  path_join [cwd; "lighthouse-reports"].

(** [`lighthouse-${Date.now()}`] *)
Definition reportFileBase_of (now : Z) : string :=
  "lighthouse-" +:+ String_of_Z now.

Definition formats_of (o : Opts) : Formats :=
  {| html := bool_decide (output o = "html");
     json := bool_decide (output o = "json") |}.

Definition generatedFiles (fmts : Formats) (reportDir reportFileBase : string)
  : list FileDescriptor :=
  (if html fmts
   then [ {| file_path := path_join [reportDir; reportFileBase +:+ ".html"];
             mediaType := "text/html" |} ]
   else []) ++
  (if json fmts
   then [ {| file_path := path_join [reportDir; reportFileBase +:+ ".json"];
             mediaType := "application/json" |} ]
   else []).

(** The argument of the one [playAudit] call. *)
Definition audit_config (o : Opts) (pg : CorePage) (port_text : string)
    (reportDir reportFileBase : string) : AuditConfig :=
  {| audit_page := pg;
     port := parseInt port_text 10;
     audit_thresholds := thresholds o;
     opts := {| logLevel := "error" |};
     reports := {| formats := formats_of o;
                   name := reportFileBase;
                   directory := reportDir |} |}.

(** The value returned after the audit. *)
Definition response (capture : bool) (o : Opts) (port_text : string)
    (reportDir reportFileBase : string) (result : RunnerResult) : Response :=
  {| code := [ "// Lighthouse audit via playwright-lighthouse";
               "await playAudit({ page, port: " +:+ port_text +:+
                 ", /* ... */ });" ];
     files := generatedFiles (formats_of o) reportDir reportFileBase;
     captureSnapshot := capture;
     waitForNetwork := false;
     data := {| scores := Object_fromEntries
                  ((λ kv, (kv.1, score kv.2)) <$>
                     Object_entries (lhr_categories (lhr result))) |} |}.

Definition handle (capture : bool) (context : Context) (params : value)
  : Prog Response :=
  match parse lighthouseAuditSchema params with
  | INVALID issues => Throw (ZodError issues)
  | OK o =>
      tab ← await ensureTab;
      let pg := page tab in
      (* [if (!port) throw ...]: [undefined] and the empty string are falsy *)
      match derive_port context with
      | Some (String _ _ as port_text) =>
          cwd ← await process_cwd;
          let reportDir := reportDir_of cwd in
          _ ← await fs_mkdir reportDir true;
          now ← await Date_now;
          let reportFileBase := reportFileBase_of now in
          result ← await playAudit
            (audit_config o pg port_text reportDir reportFileBase);
          _ ← await console_log "Lighthouse audit result:" (lhr result);
          Ret (response capture o port_text reportDir reportFileBase result)
      | _ => Throw (Error not_launched_with_port)
      end
  end.

End Handler.

(** A context whose browser was launched with the arguments [a]. *)
Definition launched_with (a : list string) : Context :=
  {| options := {| launchOptions := Some {| args := Some a |} |} |}.

(** The launch arguments a context carries, if any. *)
Definition launch_args (context : Context) : option (list string) :=
  lo ← launchOptions (options context); args lo.

(** ** Predicates of the statements, and sample inputs *)

(** A value is outside an enumeration when it is not one of its strings. *)
Definition outside (names : list string) (v : value) : Prop :=
  ∀ s, v = VStr s → s ∉ names.

(** A decimal numeral: one or more decimal digits. *)
Definition is_decimal_numeral (s : string) : bool :=
  bool_decide (s ≠ "") && bool_decide (length (digits 10 s) = String.length s).

(** An engine result with two categories, one of them without a score. *)
Definition sample_result : RunnerResult :=
  {| lhr := {| lhr_categories :=
       {[ "accessibility" := {| score := VNum 0.5%float |};
          "seo" := {| score := VNull |} ]} |} |}.

(** A world in which every collaborator succeeds. *)
Definition sample_world : World :=
  {| w_ensureTab := Return {| page := PageHandle 0 |};
     w_cwd := Return "/srv/app";
     w_mkdir := λ _ _, Return tt;
     w_now := 1700000000000;
     w_playAudit := λ _, Return sample_result |}.

(** The same world for a server started in another directory. *)
Definition other_world : World :=
  {| w_ensureTab := Return {| page := PageHandle 1 |};
     w_cwd := Return "/home/ci";
     w_mkdir := λ _ _, Return tt;
     w_now := 1700000000000;
     w_playAudit := λ _, Return sample_result |}.

(** Parameters whose one threshold is above the documented 0-100 range. *)
Definition over_range_params : value :=
  VObj {[ "thresholds" := VObj {[ "performance" := VNum 150%float ]} ]}.

(** Parameters whose one threshold is not a number. *)
Definition non_number_params : gmap string value :=
  {[ "thresholds" := VObj {[ "seo" := VStr "high" ]} ]}.

(** A path segment with nothing to normalize. *)
Fixpoint has_sep (s : string) : bool :=
  match s with
  | EmptyString => false
  | String c s' => Ascii.eqb c "/" || has_sep s'
  end.

Definition plain_segment (s : string) : Prop :=
  s ≠ "" ∧ s ≠ "." ∧ s ≠ ".." ∧ has_sep s = false.

(** An absolute path made of plain segments, such as [/srv/app]. *)
Definition plain_absolute (p : string) : Prop :=
  ∃ segs, segs ≠ [] ∧ Forall plain_segment segs ∧ p = "/" +:+ String.concat "/" segs.

(** ** Facts about the parsers *)

Section ZodFacts.

Context {A B : Type}.

Lemma isValid_map_ok (f : A → B) (r : ParseReturn A) :
  isValid (map_ok f r) = isValid r.
Proof. by destruct r. Qed.

Lemma isValid_merge (rf : ParseReturn (A → B)) (ra : ParseReturn A) :
  isValid (merge rf ra) = isValid rf && isValid ra.
Proof. by destruct rf, ra. Qed.

Lemma isValid_OK (r : ParseReturn A) :
  isValid r = true ↔ ∃ a, r = OK a.
Proof. destruct r; simpl; split; eauto; try done; by intros [? ?]. Qed.

Lemma isValid_INVALID (r : ParseReturn A) :
  isValid r = false ↔ ∃ issues, r = INVALID issues.
Proof. destruct r; simpl; split; eauto; try done; by intros [? ?]. Qed.

End ZodFacts.

Lemma enum_outside names p v :
  outside names v → isValid (enum names p v) = false.
Proof.
  intros Hout. destruct v; try reflexivity.
  simpl. rewrite bool_decide_eq_false_2; [done | by apply Hout].
Qed.

Lemma enum_OK names p v s :
  enum names p v = OK s → v = VStr s ∧ s ∈ names.
Proof.
  destruct v; try discriminate. simpl. case_bool_decide; [|discriminate].
  intros [= <-]. done.
Qed.

Lemma parse_items_invalid {A} (T : ZodType A) p l e :
  e ∈ l → (∀ q, isValid (T q e) = false) →
  ∀ i, isValid (parse_items T p i l) = false.
Proof.
  intros Hin Hbad. induction Hin as [e l | e e' l _ IH]; intros i; simpl;
    rewrite isValid_merge, isValid_map_ok.
  - by rewrite Hbad.
  - rewrite (IH Hbad). apply andb_false_r.
Qed.

Lemma default_defined {A} (T : ZodType A) d p v :
  v ≠ VUndefined → default_ T d p v = T p v.
Proof. by destruct v. Qed.

(** [z.number()] accepts exactly the numbers other than NaN. *)
Lemma number_valid p v :
  isValid (number_ p v) = true ↔ ∃ x, v = VNum x ∧ is_nan x = false.
Proof.
  destruct v as [| | |x| | |]; simpl; try (split; [done | by intros (? & ? & ?)]).
  destruct (is_nan x) eqn:Hx; simpl.
  - split; [done | intros (? & [= <-] & ?); congruence].
  - split; [eauto | done].
Qed.

(** A record is valid exactly when each of its values is. *)
Lemma record_valid {A} (V : ZodType A) p (t : gmap string value) :
  isValid (record V p (VObj t)) = true ↔
  ∀ k v, t !! k = Some v → isValid (V (p ++ [Key k]) v) = true.
Proof.
  simpl. case_bool_decide as Hall; simpl.
  - split; [intros _ k v Hk | done].
    apply (Hall k). rewrite map_lookup_imap, Hk. done.
  - split; [done | intros Hv]. destruct Hall.
    intros k r. rewrite map_lookup_imap.
    destruct (t !! k) as [v|] eqn:Hk; simpl; [|done].
    intros [= <-]. by apply Hv.
Qed.

(** The values of a valid record are the parsed values, key by key. *)
Lemma record_lookup {A} (V : ZodType A) p (t : gmap string value) t' k :
  record V p (VObj t) = OK t' →
  t' !! k = t !! k ≫= λ v, value_of (V (p ++ [Key k]) v).
Proof.
  simpl. case_bool_decide; [|discriminate]. intros [= <-].
  rewrite lookup_omap, map_lookup_imap. by destruct (t !! k).
Qed.

(** The schema of the tool is valid exactly when its four fields are. *)
Lemma lighthouseAuditSchema_valid p m :
  isValid (lighthouseAuditSchema p (VObj m)) =
    isValid (categories_schema (p ++ [Key "categories"]) (get m "categories"))
    && isValid (formFactor_schema (p ++ [Key "formFactor"]) (get m "formFactor"))
    && isValid (output_schema (p ++ [Key "output"]) (get m "output"))
    && isValid (thresholds_schema (p ++ [Key "thresholds"]) (get m "thresholds")).
Proof.
  unfold lighthouseAuditSchema.
  by rewrite !isValid_merge, isValid_map_ok.
Qed.

(** ** Facts about the built-ins *)

(** [find] skips the arguments that do not satisfy the predicate. *)
Lemma find_app_first {A} (P : A → bool) (pre post : list A) (x : A) :
  Forall (λ y, P y = false) pre → P x = true →
  List.find P (pre ++ x :: post) = Some x.
Proof.
  intros Hpre Hx. induction Hpre as [| y pre Hy _ IH]; simpl.
  - by rewrite Hx.
  - by rewrite Hy.
Qed.

Lemma find_none {A} (P : A → bool) (l : list A) :
  Forall (λ y, P y = false) l → List.find P l = None.
Proof.
  induction 1 as [| y l Hy _ IH]; simpl; [done | by rewrite Hy].
Qed.

(** When every match of the predicate is [x], [find] returns [x] or nothing. *)
Lemma find_only {A} (P : A → bool) (l : list A) (x : A) :
  Forall (λ y, P y = true → y = x) l → x ∈ l → P x = true →
  List.find P l = Some x.
Proof.
  intros Hall Hin Hx. induction Hall as [| y l Hy _ IH]; [by inversion Hin |].
  simpl. destruct (P y) eqn:HPy.
  - by rewrite (Hy eq_refl).
  - apply IH. inversion Hin; subst; [congruence | done].
Qed.

(** [Object.fromEntries] of entries with distinct keys. *)
Lemma Object_fromEntries_lookup {A} (l : list (string * A)) (k : string) :
  NoDup l.*1 →
  Object_fromEntries l !! k = (list_to_map l : gmap string A) !! k.
Proof.
  unfold Object_fromEntries. intros Hnd.
  enough (Hgen : ∀ acc : gmap string A,
    foldl (λ o kv, <[kv.1 := kv.2]> o) acc l !! k =
    match (list_to_map l : gmap string A) !! k with
    | Some v => Some v
    | None => acc !! k
    end).
  { rewrite Hgen, lookup_empty. by destruct (_ !! k). }
  induction l as [| [k0 v0] l IH]; intros acc; simpl.
  - by rewrite lookup_empty.
  - apply NoDup_cons in Hnd as [Hk0 Hnd]. rewrite (IH Hnd).
    destruct (decide (k0 = k)) as [-> | Hne].
    + rewrite (not_elem_of_list_to_map_1 _ _ Hk0), !lookup_insert_eq. done.
    + rewrite !lookup_insert_ne by done. done.
Qed.

Lemma Object_fromEntries_entries {A B} (f : A → B) (o : gmap string A) :
  Object_fromEntries ((λ kv, (kv.1, f kv.2)) <$> Object_entries o) = f <$> o.
Proof.
  apply map_eq. intros k. unfold Object_entries.
  rewrite Object_fromEntries_lookup.
  - transitivity ((list_to_map (map_to_list (f <$> o)) : gmap string B) !! k);
      [| by rewrite list_to_map_to_list].
    rewrite map_to_list_fmap. do 2 f_equal; apply list_fmap_ext; by intros _ [] _.
  - rewrite <- list_fmap_compose.
    erewrite list_fmap_ext; [apply (NoDup_fst_map_to_list o) |].
    by intros _ [] _.
Qed.

(** ** Facts about the port derivation *)

Lemma derive_port_find context a :
  launch_args context = Some a →
  derive_port context =
    List.find (λ arg, startsWith arg remote_debugging_port_flag) a
      ≫= λ arg, split "=" arg !! 1%nat.
Proof.
  unfold launch_args, derive_port.
  destruct (launchOptions (options context)) as [lo|]; simpl; [|done].
  by intros ->.
Qed.

Lemma derive_port_no_args context :
  launch_args context = None → derive_port context = None.
Proof.
  unfold launch_args, derive_port.
  destruct (launchOptions (options context)) as [lo|]; simpl; [|done].
  by intros ->.
Qed.

Lemma startsWith_flag text :
  startsWith (remote_debugging_port_flag +:+ text) remote_debugging_port_flag = true.
Proof. reflexivity. Qed.

Lemma split_flag text :
  split "=" (remote_debugging_port_flag +:+ text) !! 1%nat = split "=" text !! 0%nat.
Proof.
  change (split "=" (remote_debugging_port_flag +:+ text))
    with ("--remote-debugging-port" :: split "=" text).
  reflexivity.
Qed.

(** No argument carries the flag: no port. *)
Lemma derive_port_absent context a :
  launch_args context = Some a →
  Forall (λ arg, startsWith arg remote_debugging_port_flag = false) a →
  derive_port context = None.
Proof.
  intros Ha Hall. rewrite (derive_port_find _ _ Ha), find_none; done.
Qed.

(** The first argument carrying the flag decides: the port is the text
    between its first and its second [=]. *)
Lemma derive_port_first context pre post text :
  launch_args context = Some (pre ++ (remote_debugging_port_flag +:+ text) :: post) →
  Forall (λ arg, startsWith arg remote_debugging_port_flag = false) pre →
  derive_port context = split "=" text !! 0%nat.
Proof.
  intros Ha Hpre. rewrite (derive_port_find _ _ Ha).
  rewrite find_app_first; [| done | apply startsWith_flag].
  apply split_flag.
Qed.

(** The flag is there, always without a value: the port is the empty string. *)
Lemma derive_port_empty context a :
  launch_args context = Some a →
  remote_debugging_port_flag ∈ a →
  Forall (λ arg, startsWith arg remote_debugging_port_flag = true →
                 arg = remote_debugging_port_flag) a →
  derive_port context = Some "".
Proof.
  intros Ha Hin Hall. rewrite (derive_port_find _ _ Ha).
  by rewrite (find_only _ _ _ Hall Hin).
Qed.

(** ** Facts about the runs of the handler *)

Section HandlerFacts.

Variable path_join : list string → string.

Implicit Types (capture : bool) (context : Context) (params : value)
  (w : World) (o : Opts) (tab : Tab).

(** Invalid parameters: the handler throws before any call. *)
Lemma run_invalid capture context params w issues :
  parse lighthouseAuditSchema params = INVALID issues →
  run w (handle path_join capture context params) = ([], Threw (ZodError issues)).
Proof. unfold handle. by intros ->. Qed.

(** No usable port: the handler throws its own error after the tab lookup. *)
Lemma run_no_port capture context params w o tab :
  parse lighthouseAuditSchema params = OK o →
  w_ensureTab w = Return tab →
  derive_port context = None ∨ derive_port context = Some "" →
  run w (handle path_join capture context params)
  = ([EnsureTab], Threw (Error not_launched_with_port)).
Proof.
  unfold handle. intros -> Htab Hport. simpl. rewrite Htab.
  by destruct Hport as [-> | ->].
Qed.

(** No usable port: whatever else happens, the handler fails and the engine
    is not called. *)
Lemma run_no_port_fails capture context params w :
  derive_port context = None ∨ derive_port context = Some "" →
  engine_calls (run w (handle path_join capture context params)).1 = []
  ∧ ∃ e, (run w (handle path_join capture context params)).2 = Threw e.
Proof.
  unfold handle. intros Hport.
  destruct (parse lighthouseAuditSchema params); simpl; [| eauto].
  destruct (w_ensureTab w); simpl; [| eauto].
  destruct Hport as [-> | ->]; simpl; eauto.
Qed.

(** The steps before the audit succeed: the engine is called once, with the
    configuration built from what those steps returned. *)
Lemma run_engine capture context params w o tab c rest cwd :
  parse lighthouseAuditSchema params = OK o →
  w_ensureTab w = Return tab →
  derive_port context = Some (String c rest) →
  w_cwd w = Return cwd →
  w_mkdir w (reportDir_of path_join cwd) true = Return tt →
  engine_calls (run w (handle path_join capture context params)).1
  = [audit_config o (page tab) (String c rest)
       (reportDir_of path_join cwd) (reportFileBase_of (w_now w))].
Proof.
  unfold handle. intros -> Htab -> Hcwd Hmk. simpl.
  rewrite Htab, Hcwd, Hmk. simpl.
  by destruct (w_playAudit w _).
Qed.

(** Every call of the engine is of that form. *)
Lemma engine_call_inv capture context params w cfg :
  cfg ∈ engine_calls (run w (handle path_join capture context params)).1 →
  ∃ o tab text cwd,
    parse lighthouseAuditSchema params = OK o
    ∧ w_ensureTab w = Return tab
    ∧ derive_port context = Some text ∧ text ≠ ""
    ∧ w_cwd w = Return cwd
    ∧ cfg = audit_config o (page tab) text
              (reportDir_of path_join cwd) (reportFileBase_of (w_now w)).
Proof.
  unfold handle.
  destruct (parse lighthouseAuditSchema params) as [o|]; simpl; [| by inversion 1].
  destruct (w_ensureTab w) as [tab|] eqn:Htab; simpl; [| by inversion 1].
  destruct (derive_port context) as [[| c rest]|]; simpl; [by inversion 1 | | by inversion 1].
  destruct (w_cwd w) as [cwd|] eqn:Hcwd; simpl; [| by inversion 1].
  destruct (w_mkdir w _ _) as [[]|]; simpl; [| by inversion 1].
  destruct (w_playAudit w _); simpl; intros Hin%list_elem_of_singleton;
    exists o, tab, (String c rest), cwd; done.
Qed.

(** A run that returns went through every step. *)
Lemma run_return_inv capture context params w tr resp :
  run w (handle path_join capture context params) = (tr, Return resp) →
  ∃ o tab text cwd result,
    let dir := reportDir_of path_join cwd in
    let base := reportFileBase_of (w_now w) in
    let cfg := audit_config o (page tab) text dir base in
    parse lighthouseAuditSchema params = OK o
    ∧ w_ensureTab w = Return tab
    ∧ derive_port context = Some text ∧ text ≠ ""
    ∧ w_cwd w = Return cwd
    ∧ w_mkdir w dir true = Return tt
    ∧ w_playAudit w cfg = Return result
    ∧ tr = [EnsureTab; Cwd; Mkdir dir true; Now; PlayAudit cfg;
            ConsoleLog "Lighthouse audit result:" (lhr result)]
    ∧ resp = response path_join capture o text dir base result.
Proof.
  unfold handle.
  destruct (parse lighthouseAuditSchema params) as [o|]; simpl; [| done].
  destruct (w_ensureTab w) as [tab|] eqn:Htab; simpl; [| done].
  destruct (derive_port context) as [[| c rest]|]; simpl; [done | | done].
  destruct (w_cwd w) as [cwd|] eqn:Hcwd; simpl; [| done].
  destruct (w_mkdir w _ _) as [[]|] eqn:Hmk; simpl; [| done].
  destruct (w_playAudit w _) as [result|] eqn:Hres; simpl; [| done].
  intros [= <- <-].
  exists o, tab, (String c rest), cwd, result. simpl. done.
Qed.

End HandlerFacts.

(** ** [path.join] on POSIX, for a plain working directory *)

Lemma append_cons c (a b : string) : String c a +:+ b = String c (a +:+ b).
Proof. reflexivity. Qed.

Lemma append_assoc (a b c : string) : (a +:+ b) +:+ c = a +:+ (b +:+ c).
Proof.
  induction a as [| x a IH]; [done |]. rewrite !append_cons. by f_equal.
Qed.

Lemma has_sep_append a b : has_sep (a +:+ b) = has_sep a || has_sep b.
Proof.
  induction a as [| x a IH]; [done |]. rewrite append_cons. simpl.
  rewrite IH. by destruct (Ascii.eqb x "/").
Qed.

Lemma split_plain s : has_sep s = false → split "/" s = [s].
Proof.
  induction s as [| c s IH]; simpl; [done |].
  destruct (Ascii.eqb c "/"); [done |]. intros Hs. by rewrite (IH Hs).
Qed.

Lemma split_append s rest :
  has_sep s = false → split "/" (s +:+ String "/" rest) = s :: split "/" rest.
Proof.
  induction s as [| c s IH]; [done |]. rewrite append_cons. simpl.
  destruct (Ascii.eqb c "/"); [done |]. intros Hs. by rewrite (IH Hs).
Qed.

Lemma concat_cons x y segs :
  String.concat "/" (x :: y :: segs) = x +:+ String "/" (String.concat "/" (y :: segs)).
Proof. reflexivity. Qed.

Lemma concat_nonempty segs :
  segs ≠ [] → Forall plain_segment segs → String.concat "/" segs ≠ "".
Proof.
  destruct segs as [| x [| y segs]]; [done | |]; intros _ Hall;
    apply Forall_cons in Hall as [[Hx _] _]; [done |].
  rewrite concat_cons. by destruct x.
Qed.

Lemma concat_snoc segs x :
  segs ≠ [] →
  String.concat "/" (segs ++ [x]) = String.concat "/" segs +:+ String "/" x.
Proof.
  induction segs as [| y [| z segs] IH]; [done | done |]. intros _.
  change ((y :: z :: segs) ++ [x]) with (y :: z :: (segs ++ [x])).
  rewrite !concat_cons, append_assoc, append_cons. do 2 f_equal.
  by apply IH.
Qed.

Lemma split_concat segs :
  segs ≠ [] → Forall plain_segment segs →
  split "/" (String.concat "/" segs) = segs.
Proof.
  intros Hne Hall. induction Hall as [| x segs (_ & _ & _ & Hx) Hall IH]; [done |].
  destruct segs as [| y segs].
  - by apply split_plain.
  - rewrite concat_cons, split_append by done. by rewrite IH.
Qed.

Lemma normalizeSegments_plain allow res segs :
  Forall plain_segment segs →
  posix.normalizeSegments allow res segs = reverse res ++ segs.
Proof.
  intros Hall. revert res.
  induction Hall as [| x segs (Hx1 & Hx2 & Hx3 & _) _ IH]; intros res; simpl.
  - by rewrite app_nil_r.
  - rewrite bool_decide_eq_false_2 by (intros [? | ?]; done).
    rewrite bool_decide_eq_false_2 by done.
    rewrite IH, reverse_cons, <- app_assoc. done.
Qed.

Lemma endsWithSep_plain s : has_sep s = false → posix.endsWithSep s = false.
Proof.
  induction s as [| c s IH]; simpl; [done |].
  intros [Hc Hs]%orb_false_elim. destruct s; [done | by apply IH].
Qed.

Lemma endsWithSep_append a b :
  b ≠ "" → posix.endsWithSep (a +:+ b) = posix.endsWithSep b.
Proof.
  intros Hb. induction a as [| c a IH]; [done |]. rewrite append_cons.
  simpl. destruct (a +:+ b) eqn:Hab; [| done].
  destruct a; [| discriminate]. by destruct b.
Qed.

Lemma endsWithSep_concat segs :
  segs ≠ [] → Forall plain_segment segs →
  posix.endsWithSep (String.concat "/" segs) = false.
Proof.
  intros Hne Hall. induction Hall as [| x segs (_ & _ & _ & Hx) Hall IH]; [done |].
  destruct segs as [| y segs].
  - by apply endsWithSep_plain.
  - rewrite concat_cons.
    rewrite (endsWithSep_append x (String "/" _)) by done.
    change (String "/" ?s) with ("/" +:+ s).
    rewrite endsWithSep_append; [by apply IH | by apply concat_nonempty].
Qed.

(** A plain absolute path is its own normal form. *)
Lemma normalize_plain_absolute segs :
  segs ≠ [] → Forall plain_segment segs →
  posix.normalize ("/" +:+ String.concat "/" segs) = "/" +:+ String.concat "/" segs.
Proof.
  intros Hne Hall. unfold posix.normalize.
  rewrite bool_decide_eq_false_2 by done.
  change (startsWith ("/" +:+ ?s) "/") with true. simpl negb.
  change (split "/" ("/" +:+ ?s)) with ("" :: split "/" s).
  rewrite split_concat by done. simpl posix.normalizeSegments.
  rewrite normalizeSegments_plain by done. simpl app.
  rewrite bool_decide_eq_false_2 by by apply concat_nonempty.
  rewrite endsWithSep_append by by apply concat_nonempty.
  by rewrite endsWithSep_concat.
Qed.

(** Joining a plain segment to a plain absolute path appends it. *)
Lemma join_plain dir x :
  plain_absolute dir → plain_segment x →
  posix.join [dir; x] = dir +:+ "/" +:+ x ∧ plain_absolute (dir +:+ "/" +:+ x).
Proof.
  intros (segs & Hne & Hall & ->) Hx.
  assert ("/" +:+ String.concat "/" (segs ++ [x])
          = ("/" +:+ String.concat "/" segs) +:+ "/" +:+ x) as Heq.
  { by rewrite concat_snoc, append_assoc. }
  split.
  - unfold posix.join.
    rewrite filter_cons_True by done.
    rewrite filter_cons_True by apply Hx.
    rewrite filter_nil.
    change (String.concat "/" [?a; ?b]) with (a +:+ "/" +:+ b).
    rewrite <- Heq, normalize_plain_absolute; [done | by destruct segs |].
    apply Forall_app. split; [done | by constructor].
  - exists (segs ++ [x]). split; [by destruct segs |].
    split; [| done]. apply Forall_app. split; [done | by constructor].
Qed.

(** A printed integer has no separator in it. *)
Lemma has_sep_pretty_N_go (x : N) s :
  has_sep s = false → has_sep (pretty_N_go x s) = false.
Proof.
  revert s. induction (N.lt_wf_0 x) as [x _ IH]; intros s Hs.
  assert (x = 0 ∨ 0 < x)%N as [-> | Hpos] by lia.
  - by rewrite pretty_N_go_0.
  - rewrite pretty_N_go_step by done. apply IH; [by apply N.div_lt |].
    simpl. rewrite Hs. unfold pretty_N_char. by repeat case_match.
Qed.

Lemma has_sep_String_of_Z (z : Z) : has_sep (String_of_Z z) = false.
Proof.
  unfold String_of_Z, pretty, pretty_Z.
  assert (∀ p : positive, has_sep (pretty p) = false) as Hpos.
  { intros p. unfold pretty, pretty_positive, pretty, pretty_N.
    case_decide; [done | by apply has_sep_pretty_N_go]. }
  destruct z as [| p | p]; [done | apply Hpos |].
  rewrite has_sep_append. by rewrite Hpos.
Qed.

Lemma report_file_plain (now : Z) (ext : string) :
  has_sep ext = false → plain_segment (reportFileBase_of now +:+ ext).
Proof.
  intros Hext. unfold reportFileBase_of. rewrite append_assoc.
  repeat split; try done.
  rewrite !has_sep_append, has_sep_String_of_Z, Hext. done.
Qed.

(** On POSIX, from a plain working directory, the report is at
    [<cwd>/lighthouse-reports/lighthouse-<epoch-ms><ext>]. *)
Lemma posix_report_path (cwd : string) (now : Z) (ext : string) :
  plain_absolute cwd → has_sep ext = false →
  posix.join [reportDir_of posix.join cwd; reportFileBase_of now +:+ ext]
  = cwd +:+ "/lighthouse-reports/lighthouse-" +:+ String_of_Z now +:+ ext.
Proof.
  intros Hcwd Hext. unfold reportDir_of.
  destruct (join_plain cwd "lighthouse-reports" Hcwd) as [-> Hdir]; [done |].
  destruct (join_plain _ _ Hdir (report_file_plain now ext Hext)) as [-> _].
  unfold reportFileBase_of. by rewrite !append_assoc.
Qed.

(** ** Worked examples *)

Example parseInt_9222 : parseInt "9222" 10 = 9222%float.
Proof. reflexivity. Qed.

Example parseInt_abc : parseInt "abc" 10 = nan.
Proof. reflexivity. Qed.

Example parseInt_12px : parseInt "  -12px" 10 = (-12)%float.
Proof. reflexivity. Qed.

Example split_two_separators :
  split "=" "--remote-debugging-port=a=b" = ["--remote-debugging-port"; "a"; "b"].
Proof. reflexivity. Qed.

Example split_empty_value :
  split "=" "--remote-debugging-port=" = ["--remote-debugging-port"; ""].
Proof. reflexivity. Qed.

Example posix_join_reports :
  posix.join [posix.join ["/srv/app"; "lighthouse-reports"]; "lighthouse-17.html"]
  = "/srv/app/lighthouse-reports/lighthouse-17.html".
Proof. vm_compute. reflexivity. Qed.

Example posix_join_root :
  posix.join ["/"; "lighthouse-reports"] = "/lighthouse-reports".
Proof. vm_compute. reflexivity. Qed.

Example posix_join_dots :
  posix.join ["/a/b/../c/"; "./d"; ""; "../e"] = "/a/c/e".
Proof. vm_compute. reflexivity. Qed.

(** ** Parameter validation *)

(** What a valid parse says about each field. *)
Lemma lighthouseAuditSchema_OK p params o :
  lighthouseAuditSchema p params = OK o →
  ∃ m, params = VObj m
    ∧ categories_schema (p ++ [Key "categories"]) (get m "categories") = OK (categories o)
    ∧ formFactor_schema (p ++ [Key "formFactor"]) (get m "formFactor") = OK (formFactor o)
    ∧ output_schema (p ++ [Key "output"]) (get m "output") = OK (output o)
    ∧ thresholds_schema (p ++ [Key "thresholds"]) (get m "thresholds") = OK (thresholds o).
Proof.
  destruct params as [| | | | | |m]; try discriminate.
  unfold lighthouseAuditSchema. intros H. exists m. split; [done |].
  destruct (categories_schema _ _), (formFactor_schema _ _),
    (output_schema _ _), (thresholds_schema _ _); try discriminate.
  by injection H as <-.
Qed.

(** The normalized output format is one of the two declared ones. *)
Lemma output_domain params o :
  parse lighthouseAuditSchema params = OK o →
  output o = "html" ∨ output o = "json".
Proof.
  intros (m & _ & _ & _ & Hout & _)%lighthouseAuditSchema_OK.
  unfold output_schema, default_ in Hout.
  assert (output o ∈ output_names) as Hin.
  { destruct (get m "output"); try discriminate;
      by apply enum_OK in Hout as [_ ?]. }
  apply elem_of_cons in Hin as [? | Hin]; [by left |].
  apply elem_of_cons in Hin as [? | Hin]; [by right |].
  by apply elem_of_nil in Hin.
Qed.

(** Invalid parameters stop the handler before its first call. *)
Lemma invalid_params_throw path_join capture context params w :
  isValid (parse lighthouseAuditSchema params) = false →
  ∃ issues, parse lighthouseAuditSchema params = INVALID issues
    ∧ run w (handle path_join capture context params)
      = ([], Threw (ZodError issues)).
Proof.
  intros [issues Hi]%isValid_INVALID. exists issues.
  split; [done | by apply run_invalid].
Qed.

(** C3. An object that sets none of [categories], [formFactor], [output]
    and [thresholds] (each reads as [undefined], which covers an absent
    property) is valid, and its normalized form is the declared defaults:
    categories [accessibility], form factor [desktop], output [html], no
    thresholds. *)
Theorem defaults_when_omitted (m : gmap string value) :
  get m "categories" = VUndefined →
  get m "formFactor" = VUndefined →
  get m "output" = VUndefined →
  get m "thresholds" = VUndefined →
  parse lighthouseAuditSchema (VObj m)
  = OK {| categories := ["accessibility"];
          formFactor := "desktop";
          output := "html";
          thresholds := None |}.
Proof.
  intros Hc Hf Ho Ht. unfold parse, lighthouseAuditSchema.
  rewrite Hc, Hf, Ho, Ht. reflexivity.
Qed.

Lemma defaults_when_omitted_witness :
  parse lighthouseAuditSchema (VObj {[ "url" := VStr "https://example.org" ]})
  = OK {| categories := ["accessibility"];
          formFactor := "desktop";
          output := "html";
          thresholds := None |}.
Proof. apply defaults_when_omitted; reflexivity. Defined.

(** C4. An input object with a [categories] array holding an element outside
    the category enumeration, or a [formFactor] or an [output] outside its
    enumeration, fails validation; the handler throws the validation error
    without making any call, so the audit engine is never invoked. *)
Theorem enum_violation_rejected path_join capture context
    (m : gmap string value) w :
  (∃ l e, m !! "categories" = Some (VArr l) ∧ e ∈ l ∧ outside category_names e)
  ∨ (∃ v, m !! "formFactor" = Some v ∧ v ≠ VUndefined ∧ outside formFactor_names v)
  ∨ (∃ v, m !! "output" = Some v ∧ v ≠ VUndefined ∧ outside output_names v) →
  ∃ issues,
    parse lighthouseAuditSchema (VObj m) = INVALID issues
    ∧ run w (handle path_join capture context (VObj m))
      = ([], Threw (ZodError issues)).
Proof.
  intros Hbad. apply invalid_params_throw.
  unfold parse. rewrite lighthouseAuditSchema_valid. unfold get.
  destruct Hbad as [(l & e & -> & Hin & Hout) | [(v & -> & Hv & Hout) | (v & -> & Hv & Hout)]];
    simpl.
  - rewrite (parse_items_invalid _ _ _ _ Hin); [done |].
    intros q. by apply enum_outside.
  - unfold formFactor_schema. rewrite default_defined by done.
    rewrite enum_outside by done. by rewrite andb_false_r.
  - unfold output_schema. rewrite default_defined by done.
    rewrite enum_outside by done. by rewrite andb_false_r.
Qed.

Lemma enum_violation_rejected_witness :
  ∃ issues,
    parse lighthouseAuditSchema (VObj {[ "output" := VStr "pdf" ]}) = INVALID issues
    ∧ run sample_world
        (handle posix.join true (launched_with ["--remote-debugging-port=9222"])
           (VObj {[ "output" := VStr "pdf" ]}))
      = ([], Threw (ZodError issues)).
Proof.
  apply enum_violation_rejected. right. right.
  exists (VStr "pdf"). split; [reflexivity |]. split; [discriminate |].
  intros s [= <-]. apply (bool_decide_eq_true_1 ("pdf" ∉ output_names)).
  reflexivity.
Defined.

(** The thresholds field is valid exactly when it is [undefined] or an
    object whose values are all numbers other than NaN. *)
Lemma thresholds_object_valid p (t : gmap string value) :
  isValid (thresholds_schema p (VObj t)) = true ↔
  ∀ k v, t !! k = Some v → ∃ x, v = VNum x ∧ is_nan x = false.
Proof.
  unfold thresholds_schema, describe, optional.
  rewrite isValid_map_ok, record_valid.
  split; intros H k v Hk.
  - apply (number_valid (p ++ [Key k])); eauto.
  - apply number_valid; eauto.
Qed.

(** The claim of C1 fails on the schema: a threshold of 150, above the
    documented range, passes validation, and the audit engine is called with
    it. *)
Lemma threshold_above_100_accepted :
  (100 <? 150)%float = true
  ∧ (∃ o, parse lighthouseAuditSchema over_range_params = OK o
          ∧ thresholds o = Some {[ "performance" := 150%float ]})
  ∧ audit_thresholds <$>
      engine_calls
        (run sample_world
           (handle posix.join true
              (launched_with ["--remote-debugging-port=9222"])
              over_range_params)).1
    = [Some {[ "performance" := 150%float ]}].
Proof.
  split; [reflexivity |]. split.
  - eexists. split; vm_compute; reflexivity.
  - vm_compute. reflexivity.
Qed.

(** C1, amended. The schema checks the type of the thresholds, not their
    range: a thresholds object is valid exactly when every value is a number
    other than NaN.  Hence an input whose thresholds contain a value that is
    not such a number fails validation, and the handler throws the validation
    error without making any call. *)
Theorem thresholds_non_number_rejected path_join capture context
    (m t : gmap string value) w :
  m !! "thresholds" = Some (VObj t) →
  (isValid (thresholds_schema [Key "thresholds"] (VObj t)) = true ↔
     ∀ k v, t !! k = Some v → ∃ x, v = VNum x ∧ is_nan x = false)
  ∧ ((∃ k v, t !! k = Some v ∧ ∀ x, v = VNum x → is_nan x = true) →
     ∃ issues,
       parse lighthouseAuditSchema (VObj m) = INVALID issues
       ∧ run w (handle path_join capture context (VObj m))
         = ([], Threw (ZodError issues))).
Proof.
  intros Hm. split; [apply thresholds_object_valid |].
  intros (k & v & Hk & Hv). apply invalid_params_throw.
  unfold parse. rewrite lighthouseAuditSchema_valid.
  unfold get at 4. rewrite Hm. simpl default.
  destruct (isValid (thresholds_schema _ (VObj t))) eqn:Hvalid;
    [| apply andb_false_r].
  destruct (proj1 (thresholds_object_valid _ _) Hvalid k v Hk) as (x & -> & Hx).
  rewrite (Hv x eq_refl) in Hx. discriminate.
Qed.

Lemma thresholds_non_number_rejected_witness :
  ∃ issues,
    parse lighthouseAuditSchema (VObj non_number_params) = INVALID issues
    ∧ run sample_world
        (handle posix.join true (launched_with ["--remote-debugging-port=9222"])
           (VObj non_number_params))
      = ([], Threw (ZodError issues)).
Proof.
  apply (proj2 (thresholds_non_number_rejected posix.join true
                  (launched_with ["--remote-debugging-port=9222"])
                  non_number_params {[ "seo" := VStr "high" ]} sample_world
                  eq_refl)).
  exists "seo", (VStr "high"). split; [reflexivity | discriminate].
Defined.

(** ** The remote-debugging port *)

(** C5. Launch arguments none of which starts with
    [--remote-debugging-port=]: the handler always fails and never calls the
    audit engine; once the parameters are valid and the tab is there, what
    it throws is the configuration error, whose message tells the operator
    to restart with that flag. *)
Theorem missing_flag_configuration_error path_join capture context
    (a : list string) params w :
  launch_args context = Some a →
  Forall (λ arg, startsWith arg "--remote-debugging-port=" = false) a →
  let r := run w (handle path_join capture context params) in
  engine_calls r.1 = []
  ∧ (∃ e, r.2 = Threw e)
  ∧ (∀ o tab,
       parse lighthouseAuditSchema params = OK o →
       w_ensureTab w = Return tab →
       r = ([EnsureTab],
            Threw (Error
              ("The Playwright browser was not launched with --remote-debugging-port=<n>. " +:+
               "Restart the MCP server with that flag so Lighthouse can attach.")))).
Proof.
  intros Ha Hall r.
  pose proof (derive_port_absent _ _ Ha Hall) as Hport.
  destruct (run_no_port_fails path_join capture context params w (or_introl Hport))
    as [Hcalls Hthrow].
  repeat split; [done | done |].
  intros o tab Ho Htab. by apply (run_no_port _ _ _ _ _ o tab); [| | left].
Qed.

Lemma missing_flag_configuration_error_witness :
  run sample_world
    (handle posix.join true (launched_with ["--headless"; "--no-sandbox"]) (VObj ∅))
  = ([EnsureTab],
     Threw (Error
       ("The Playwright browser was not launched with --remote-debugging-port=<n>. " +:+
        "Restart the MCP server with that flag so Lighthouse can attach."))).
Proof.
  refine (proj2 (proj2 (missing_flag_configuration_error posix.join true
    (launched_with ["--headless"; "--no-sandbox"]) ["--headless"; "--no-sandbox"]
    (VObj ∅) sample_world eq_refl _)) _ _ eq_refl eq_refl).
  repeat constructor.
Defined.

(** C9. Launch arguments in which the flag occurs, and only ever as
    [--remote-debugging-port=] with nothing after the [=]: the handler
    behaves as when the flag is absent.  It always fails and never calls the
    audit engine, and with valid parameters and a tab it throws the same
    configuration error. *)
Theorem empty_flag_value_configuration_error path_join capture context
    (a : list string) params w :
  launch_args context = Some a →
  "--remote-debugging-port=" ∈ a →
  Forall (λ arg, startsWith arg "--remote-debugging-port=" = true →
                 arg = "--remote-debugging-port=") a →
  let r := run w (handle path_join capture context params) in
  engine_calls r.1 = []
  ∧ (∃ e, r.2 = Threw e)
  ∧ (∀ o tab,
       parse lighthouseAuditSchema params = OK o →
       w_ensureTab w = Return tab →
       r = ([EnsureTab], Threw (Error not_launched_with_port))
       ∧ r = run w (handle path_join capture (launched_with []) params)).
Proof.
  intros Ha Hin Hall r.
  pose proof (derive_port_empty _ _ Ha Hin Hall) as Hport.
  destruct (run_no_port_fails path_join capture context params w (or_intror Hport))
    as [Hcalls Hthrow].
  repeat split; [done | done | |].
  - by apply (run_no_port _ _ _ _ _ o tab); [| | right].
  - subst r. rewrite (run_no_port _ _ _ _ _ o tab); [| done | done | by right].
    symmetry. by apply (run_no_port _ _ _ _ _ o tab); [| | left].
Qed.

Lemma empty_flag_value_configuration_error_witness :
  run sample_world
    (handle posix.join true
       (launched_with ["--headless"; "--remote-debugging-port="]) (VObj ∅))
  = ([EnsureTab], Threw (Error not_launched_with_port)).
Proof.
  refine (proj1 (proj2 (proj2 (empty_flag_value_configuration_error posix.join true
    (launched_with ["--headless"; "--remote-debugging-port="])
    ["--headless"; "--remote-debugging-port="]
    (VObj ∅) sample_world eq_refl _ _)) _ _ eq_refl eq_refl)).
  - apply list_elem_of_In. simpl. auto.
  - repeat constructor; simpl; discriminate.
Defined.

(** The claim of C6 fails when an earlier argument also carries the flag:
    [find] returns the first match, and the engine is called with port 1234
    although [--remote-debugging-port=9222] is among the arguments. *)
Lemma earlier_flag_wins :
  "--remote-debugging-port=9222"
    ∈ ["--remote-debugging-port=1234"; "--remote-debugging-port=9222"]
  ∧ port <$>
      engine_calls
        (run sample_world
           (handle posix.join true
              (launched_with
                 ["--remote-debugging-port=1234"; "--remote-debugging-port=9222"])
              (VObj ∅))).1
    = [1234%float]
  ∧ 1234%float ≠ 9222%float.
Proof.
  split; [apply list_elem_of_In; simpl; auto |].
  split; [vm_compute; reflexivity |].
  intros H. apply (f_equal (λ x, (x <? 2000)%float)) in H.
  vm_compute in H. discriminate.
Qed.

(** C6, amended. When [--remote-debugging-port=9222] is the first argument
    that starts with [--remote-debugging-port=], whatever the other
    arguments are, every call of the audit engine carries the port 9222, and
    the engine is called once as soon as the steps before it succeed. *)
Theorem port_9222_when_first_flag path_join capture context
    (pre post : list string) params w :
  launch_args context = Some (pre ++ "--remote-debugging-port=9222" :: post) →
  Forall (λ arg, startsWith arg "--remote-debugging-port=" = false) pre →
  let tr := (run w (handle path_join capture context params)).1 in
  derive_port context = Some "9222"
  ∧ Forall (λ cfg, port cfg = 9222%float) (engine_calls tr)
  ∧ (∀ o tab cwd,
       parse lighthouseAuditSchema params = OK o →
       w_ensureTab w = Return tab →
       w_cwd w = Return cwd →
       w_mkdir w (path_join [cwd; "lighthouse-reports"]) true = Return tt →
       ∃ cfg, engine_calls tr = [cfg] ∧ port cfg = 9222%float).
Proof.
  intros Ha Hpre tr.
  assert (derive_port context = Some "9222") as Hport.
  { by rewrite (derive_port_first context pre post "9222"). }
  split; [done |]. split.
  - apply Forall_forall. intros cfg Hcfg.
    apply engine_call_inv in Hcfg as (o & tab & text & cwd & _ & _ & Ht & _ & _ & ->).
    rewrite Hport in Ht. injection Ht as <-. reflexivity.
  - intros o tab cwd Ho Htab Hcwd Hmk.
    exists (audit_config o (page tab) "9222"
              (reportDir_of path_join cwd) (reportFileBase_of (w_now w))).
    split; [| reflexivity].
    by apply (run_engine _ _ _ _ _ o tab "9"%char "222" cwd).
Qed.

Lemma port_9222_when_first_flag_witness :
  ∃ cfg,
    engine_calls
      (run sample_world
         (handle posix.join true
            (launched_with ["--headless"; "--remote-debugging-port=9222"; "--mute-audio"])
            (VObj ∅))).1 = [cfg]
    ∧ port cfg = 9222%float.
Proof.
  refine (proj2 (proj2 (port_9222_when_first_flag posix.join true
    (launched_with ["--headless"; "--remote-debugging-port=9222"; "--mute-audio"])
    ["--headless"] ["--mute-audio"] (VObj ∅) sample_world eq_refl _))
    _ _ _ eq_refl eq_refl eq_refl eq_refl).
  repeat constructor.
Defined.

(** C10. There are launch arguments with [--remote-debugging-port=<text>],
    [<text>] neither empty nor a decimal numeral, for which the handler does
    not throw the configuration error: it calls the audit engine, with NaN
    as the port, and returns. *)
Theorem non_numeric_port_reaches_engine :
  ∃ (text : string) (a : list string) params w,
    text ≠ "" ∧ is_decimal_numeral text = false
    ∧ ("--remote-debugging-port=" +:+ text) ∈ a
    ∧ let r := run w (handle posix.join true (launched_with a) params) in
      r.2 ≠ Threw (Error not_launched_with_port)
      ∧ (∃ resp, r.2 = Return resp)
      ∧ (∃ cfg, engine_calls r.1 = [cfg]
                ∧ port cfg = nan ∧ is_nan (port cfg) = true).
Proof.
  exists "abc", ["--headless"; "--remote-debugging-port=abc"], (VObj ∅), sample_world.
  split; [discriminate |]. split; [reflexivity |].
  split; [apply list_elem_of_In; simpl; auto |].
  split; [vm_compute; discriminate |].
  split; [eexists; vm_compute; reflexivity |].
  eexists. split; [vm_compute; reflexivity |]. split; reflexivity.
Qed.

(** ** The response *)

(** C7. A run that returns reports exactly one file.  With output [html] it
    is [lighthouse-<epoch-ms>.html] in the directory [lighthouse-reports] of
    the working directory, with media type [text/html]; with output [json] it
    is the [.json] file of the same base name, with media type
    [application/json].  The normalized output is always one of the two. *)
Theorem files_one_entry path_join capture context params w tr resp o :
  run w (handle path_join capture context params) = (tr, Return resp) →
  parse lighthouseAuditSchema params = OK o →
  ∃ cwd,
    w_cwd w = Return cwd
    ∧ let dir := path_join [cwd; "lighthouse-reports"] in
      let base := "lighthouse-" +:+ String_of_Z (w_now w) in
      (output o = "html" ∨ output o = "json")
      ∧ (output o = "html" →
         files resp = [ {| file_path := path_join [dir; base +:+ ".html"];
                           mediaType := "text/html" |} ])
      ∧ (output o = "json" →
         files resp = [ {| file_path := path_join [dir; base +:+ ".json"];
                           mediaType := "application/json" |} ]).
Proof.
  intros Hrun Ho.
  apply run_return_inv in Hrun
    as (o' & tab & text & cwd & result & Ho' & _ & _ & _ & Hcwd & _ & _ & _ & ->).
  rewrite Ho in Ho'. injection Ho' as <-.
  exists cwd. split; [done |]. simpl.
  split; [by apply (output_domain params) |].
  unfold generatedFiles, formats_of. simpl.
  split; intros ->; reflexivity.
Qed.

Lemma files_one_entry_witness :
  ∃ tr resp,
    run sample_world
      (handle posix.join true (launched_with ["--remote-debugging-port=9222"])
         (VObj {[ "output" := VStr "json" ]})) = (tr, Return resp)
    ∧ files resp
      = [ {| file_path := "/srv/app/lighthouse-reports/lighthouse-1700000000000.json";
             mediaType := "application/json" |} ].
Proof.
  pose (o := {| categories := ["accessibility"]; formFactor := "desktop";
                output := "json"; thresholds := None |}).
  pose (tr := [EnsureTab; Cwd; Mkdir "/srv/app/lighthouse-reports" true; Now;
               PlayAudit (audit_config o (PageHandle 0) "9222"
                 "/srv/app/lighthouse-reports" "lighthouse-1700000000000");
               ConsoleLog "Lighthouse audit result:" (lhr sample_result)]).
  pose (resp := response posix.join true o "9222"
                  "/srv/app/lighthouse-reports" "lighthouse-1700000000000"
                  sample_result).
  assert (Hrun : run sample_world
            (handle posix.join true (launched_with ["--remote-debugging-port=9222"])
               (VObj {[ "output" := VStr "json" ]})) = (tr, Return resp))
    by reflexivity.
  assert (Ho : parse lighthouseAuditSchema (VObj {[ "output" := VStr "json" ]}) = OK o)
    by reflexivity.
  exists tr, resp. split; [exact Hrun |].
  destruct (files_one_entry _ _ _ _ _ _ _ _ Hrun Ho) as (cwd & Hcwd & _ & _ & Hjson).
  injection Hcwd as <-. exact (Hjson eq_refl).
Defined.

(** The files of C7, spelled out for a POSIX server started in a plain
    working directory. *)
Corollary posix_files_spelled_out capture context params w tr resp o cwd :
  run w (handle posix.join capture context params) = (tr, Return resp) →
  parse lighthouseAuditSchema params = OK o →
  w_cwd w = Return cwd →
  plain_absolute cwd →
  files resp
  = [ {| file_path := cwd +:+ "/lighthouse-reports/lighthouse-" +:+
                        String_of_Z (w_now w) +:+ "." +:+ output o;
         mediaType := if bool_decide (output o = "html")
                      then "text/html" else "application/json" |} ].
Proof.
  intros Hrun Ho Hcwd Hplain.
  apply run_return_inv in Hrun
    as (o' & tab & text & cwd' & result & Ho' & _ & _ & _ & Hcwd' & _ & _ & _ & ->).
  rewrite Ho in Ho'. injection Ho' as <-.
  rewrite Hcwd in Hcwd'. injection Hcwd' as <-.
  unfold response, files, generatedFiles, formats_of, html, json.
  destruct (output_domain params o Ho) as [-> | ->]; simpl;
    by rewrite posix_report_path.
Qed.

(** C8. In a run that returns, the engine was called once and answered with
    a result; [data.scores] has exactly the category names of that result as
    its keys, and each is mapped to the score the result holds for it. *)
Theorem scores_pass_through path_join capture context params w tr resp :
  run w (handle path_join capture context params) = (tr, Return resp) →
  ∃ cfg result,
    engine_calls tr = [cfg]
    ∧ w_playAudit w cfg = Return result
    ∧ dom (scores (data resp)) = dom (lhr_categories (lhr result))
    ∧ (∀ k, scores (data resp) !! k = score <$> lhr_categories (lhr result) !! k)
    ∧ (∀ k c, lhr_categories (lhr result) !! k = Some c →
              scores (data resp) !! k = Some (score c)).
Proof.
  intros Hrun.
  apply run_return_inv in Hrun
    as (o & tab & text & cwd & result & _ & _ & _ & _ & _ & _ & Hres & -> & ->).
  eexists _, result. split; [reflexivity |]. split; [exact Hres |].
  simpl. rewrite Object_fromEntries_entries.
  split; [apply dom_fmap_L |].
  split; [intros k; apply lookup_fmap |].
  intros k c Hk. by rewrite lookup_fmap, Hk.
Qed.

Lemma scores_pass_through_witness :
  ∃ tr resp cfg result,
    run sample_world
      (handle posix.join true (launched_with ["--remote-debugging-port=9222"])
         (VObj ∅)) = (tr, Return resp)
    ∧ engine_calls tr = [cfg]
    ∧ w_playAudit sample_world cfg = Return result
    ∧ scores (data resp) !! "accessibility" = Some (VNum 0.5%float)
    ∧ scores (data resp) !! "seo" = Some VNull.
Proof.
  pose (o := {| categories := ["accessibility"]; formFactor := "desktop";
                output := "html"; thresholds := None |}).
  pose (tr := [EnsureTab; Cwd; Mkdir "/srv/app/lighthouse-reports" true; Now;
               PlayAudit (audit_config o (PageHandle 0) "9222"
                 "/srv/app/lighthouse-reports" "lighthouse-1700000000000");
               ConsoleLog "Lighthouse audit result:" (lhr sample_result)]).
  pose (resp := response posix.join true o "9222"
                  "/srv/app/lighthouse-reports" "lighthouse-1700000000000"
                  sample_result).
  assert (Hrun : run sample_world
            (handle posix.join true (launched_with ["--remote-debugging-port=9222"])
               (VObj ∅)) = (tr, Return resp))
    by reflexivity.
  destruct (scores_pass_through _ _ _ _ _ _ _ Hrun)
    as (cfg & result & Hcalls & Hres & _ & _ & Hscore).
  exists tr, resp, cfg, result.
  injection Hres as <-.
  split; [exact Hrun |]. split; [exact Hcalls |]. split; [reflexivity |].
  split.
  - apply (Hscore "accessibility" {| score := VNum 0.5%float |}). reflexivity.
  - apply (Hscore "seo" {| score := VNull |}). reflexivity.
Defined.

(** ** The report base name *)

Lemma reportFileBase_of_inj (t1 t2 : Z) :
  reportFileBase_of t1 = reportFileBase_of t2 → t1 = t2.
Proof.
  unfold reportFileBase_of, String_of_Z. intros H.
  apply (inj (String.append _)) in H. by apply (inj pretty) in H.
Qed.

(** The claim of C2 fails: two invocations that read the same clock value
    hand the engine the same base name. *)
Lemma same_clock_same_base :
  w_now sample_world = w_now other_world
  ∧ (name ∘ reports) <$>
      engine_calls
        (run sample_world
           (handle posix.join true
              (launched_with ["--remote-debugging-port=9222"]) (VObj ∅))).1
    = ["lighthouse-1700000000000"]
  ∧ (name ∘ reports) <$>
      engine_calls
        (run other_world
           (handle posix.join false
              (launched_with ["--remote-debugging-port=9333"])
              (VObj {[ "output" := VStr "json" ]}))).1
    = ["lighthouse-1700000000000"].
Proof. repeat split; vm_compute; reflexivity. Qed.

(** C2, amended. The base name is [lighthouse-] followed by the clock
    reading and nothing else: the base names two invocations hand to the
    engine are equal exactly when the invocations read the same clock value,
    so they are distinct whenever the clock values differ. *)
Theorem report_base_distinct_iff_clock path_join
    capture1 capture2 context1 context2 params1 params2 w1 w2 cfg1 cfg2 :
  cfg1 ∈ engine_calls (run w1 (handle path_join capture1 context1 params1)).1 →
  cfg2 ∈ engine_calls (run w2 (handle path_join capture2 context2 params2)).1 →
  name (reports cfg1) = "lighthouse-" +:+ String_of_Z (w_now w1)
  ∧ name (reports cfg2) = "lighthouse-" +:+ String_of_Z (w_now w2)
  ∧ (name (reports cfg1) ≠ name (reports cfg2) ↔ w_now w1 ≠ w_now w2).
Proof.
  intros (o1 & tab1 & text1 & cwd1 & _ & _ & _ & _ & _ & ->)%engine_call_inv
         (o2 & tab2 & text2 & cwd2 & _ & _ & _ & _ & _ & ->)%engine_call_inv.
  simpl. split; [done |]. split; [done |].
  split; intros Hne Heq; apply Hne.
  - by rewrite Heq.
  - by apply reportFileBase_of_inj.
Qed.

Lemma report_base_distinct_iff_clock_witness :
  "lighthouse-1700000000000" ≠ "lighthouse-1700000000001".
Proof.
  pose (later := {| w_ensureTab := w_ensureTab sample_world;
                    w_cwd := w_cwd sample_world;
                    w_mkdir := w_mkdir sample_world;
                    w_now := 1700000000001;
                    w_playAudit := w_playAudit sample_world |}).
  pose (o := {| categories := ["accessibility"]; formFactor := "desktop";
                output := "html"; thresholds := None |}).
  pose (cfg1 := audit_config o (PageHandle 0) "9222"
                  "/srv/app/lighthouse-reports" "lighthouse-1700000000000").
  pose (cfg2 := audit_config o (PageHandle 0) "9222"
                  "/srv/app/lighthouse-reports" "lighthouse-1700000000001").
  assert (H1 : cfg1 ∈ engine_calls (run sample_world
            (handle posix.join true
               (launched_with ["--remote-debugging-port=9222"]) (VObj ∅))).1)
    by (apply list_elem_of_In; left; reflexivity).
  assert (H2 : cfg2 ∈ engine_calls (run later
            (handle posix.join true
               (launched_with ["--remote-debugging-port=9222"]) (VObj ∅))).1)
    by (apply list_elem_of_In; left; reflexivity).
  apply (proj2 (proj2 (proj2
    (report_base_distinct_iff_clock _ _ _ _ _ _ _ _ _ _ _ H1 H2)))).
  simpl. lia.
Defined.

